(** * Chat transcript and PDF-to-audio converter: state models and properties

    A shallow embedding of the two stateful React components of the
    application, [Chat] (src/components/Chat.jsx) and [Converter]
    (src/components/Converter.jsx).

    Rendering model.  A component function is re-run after every event, so a
    handler created by one render closes over the state committed by all the
    events before it.  A handler is therefore a function from the committed
    state to the next committed state.  Work that the handler defers (the
    callback of [setTimeout], the continuation after [await]) is kept in the
    state as a pending item together with the values its closure captured,
    and runs as an event of its own. *)

From Stdlib Require Import String Ascii.
From Stdlib Require Import List NArith Bool Arith Lia.
Import ListNotations.

Set Implicit Arguments.

(** ** JavaScript strings *)

Module JS.

(** A string is its sequence of UTF-16 code units. *)
Definition jsstring : Type := list N.

(** A literal of the source, all of whose characters are ASCII. *)
Fixpoint lit (s : string) : jsstring :=
  match s with
  | EmptyString => []
  | String c r => N_of_ascii c :: lit r
  end.
Arguments lit s%_string.

(** WhiteSpace and LineTerminator code points of ECMAScript, the characters
    removed by [String.prototype.trim].  All lie in the basic plane, so a
    code point is one code unit. *)
Definition isWhiteSpace (c : N) : bool :=
  ((0x09 <=? c) && (c <=? 0x0D) || (c =? 0x20) || (c =? 0xA0)
   || (c =? 0x1680) || (0x2000 <=? c) && (c <=? 0x200A)
   || (c =? 0x2028) || (c =? 0x2029) || (c =? 0x202F) || (c =? 0x205F)
   || (c =? 0x3000) || (c =? 0xFEFF))%N.

Fixpoint trimStart (s : jsstring) : jsstring :=
  match s with
  | [] => []
  | c :: r => if isWhiteSpace c then trimStart r else s
  end.

Definition trimEnd (s : jsstring) : jsstring := rev (trimStart (rev s)).

Definition trim (s : jsstring) : jsstring := trimEnd (trimStart s).

(** ToBoolean on a string: only the empty string is falsy. *)
Definition truthy (s : jsstring) : bool :=
  match s with
  | [] => false
  | _ :: _ => true
  end.

(** Strict equality [===] of two strings. *)
Fixpoint eqb (s t : jsstring) : bool :=
  match s, t with
  | [], [] => true
  | c :: s', d :: t' => (c =? d)%N && eqb s' t'
  | _, _ => false
  end.

Definition blank (s : jsstring) : bool := forallb isWhiteSpace s.

End JS.

Import JS.

(** ** The chat component (src/components/Chat.jsx) *)

Module Chat.

(** The two values of the [sender] field, ["user"] and ["bot"]. *)
Inductive Sender : Type := user | bot.

Record Message : Type := mkMessage {
  id : nat;
  text : jsstring;
  sender : Sender
}.

(** A callback registered with [setTimeout]: its delay in milliseconds and
    the [botResponse] object its closure builds from the captured
    [messages]. *)
Record Timer : Type := mkTimer {
  delay : nat;
  botResponse : Message
}.

Record State : Type := mkState {
  message : jsstring;         (* useState("") : the input box *)
  messages : list Message;    (* useState([...]) : the transcript *)
  timers : list Timer         (* pending setTimeout callbacks, oldest first *)
}.

Definition greeting : jsstring := lit "Hello! How can I assist you today?".
Definition demoResponse : jsstring :=
  lit "Thanks for your message! This is a demo response.".

Definition initialMessages : list Message :=
  [ mkMessage 1 greeting bot; mkMessage 2 (lit "Hi!") user ].

Definition init : State := mkState [] initialMessages [].

Definition setMessage (v : jsstring) (st : State) : State :=
  mkState v (messages st) (timers st).

Definition handleSendMessage (st : State) : State :=
  if truthy (trim (message st)) then
    let newMessage :=
      mkMessage (length (messages st) + 1) (message st) user in
    let response :=
      mkMessage (length (messages st) + 2) demoResponse bot in
    mkState [] (messages st ++ [newMessage])
            (timers st ++ [mkTimer 1000 response])
  else st.

(** The oldest pending callback runs:
    [setMessages((prev) => [...prev, botResponse])].  All callbacks have the
    same delay, so they run in the order they were registered. *)
Definition timeout (st : State) : State :=
  match timers st with
  | [] => st
  | t :: rest => mkState (message st) (messages st ++ [botResponse t]) rest
  end.

Definition handleKeyPress (key : jsstring) (shiftKey : bool) (st : State)
  : State :=
  if JS.eqb key (lit "Enter") && negb shiftKey then handleSendMessage st
  else st.

(** [disabled={!message.trim()}] on the Send button. *)
Definition sendDisabled (st : State) : bool :=
  negb (truthy (trim (message st))).

Definition clickSend (st : State) : State :=
  if sendDisabled st then st else handleSendMessage st.

Inductive Event : Type :=
| Change (v : jsstring)                       (* onChange of the input *)
| KeyPress (key : jsstring) (shiftKey : bool) (* onKeyPress of the input *)
| ClickSend                                   (* onClick of Send *)
| Expire.                                    (* a timer expires *)

Definition step (st : State) (e : Event) : State :=
  match e with
  | Change v => setMessage v st
  | KeyPress k s => handleKeyPress k s st
  | ClickSend => clickSend st
  | Expire => timeout st
  end.

Definition run (evs : list Event) (st : State) : State :=
  fold_left step evs st.

Definition ids (st : State) : list nat := map id (messages st).

(** Number of exchanges whose reply has not been appended yet. *)
Definition inFlight (st : State) : nat := length (timers st).

Fixpoint strictlyIncreasing (l : list nat) : bool :=
  match l with
  | [] => true
  | x :: r =>
      match r with
      | [] => true
      | y :: _ => (x <? y) && strictlyIncreasing r
      end
  end.

(** One exchange run to its end: the text is typed and sent, and the reply
    arrives before anything else happens. *)
Definition exchange (st : State) (v : jsstring) : State :=
  timeout (handleSendMessage (setMessage v st)).

(** The timers that a call of [handleSendMessage] registers. *)
Definition registered (st : State) : list Timer :=
  skipn (length (timers st)) (timers (handleSendMessage st)).

(** The texts that assistant-origin entries can carry. *)
Definition replyInvariant (st : State) : Prop :=
  Forall (fun t => text (botResponse t) = demoResponse) (timers st)
  /\ Forall (fun m => sender m = bot ->
                      text m = greeting \/ text m = demoResponse)
            (messages st).

(** What the first entries of a transcript look like. *)
Definition headInvariant (st : State) : Prop :=
  exists l,
    messages st = initialMessages ++ l
    /\ match l with
       | [] => timers st = []
       | m :: _ => id m = 3 /\ sender m = user
       end.

(** Counting the entries of one origin. *)
Definition senderEqb (a b : Sender) : bool :=
  match a, b with
  | user, user => true
  | bot, bot => true
  | _, _ => false
  end.

Definition countSender (s : Sender) (l : list Message) : nat :=
  length (filter (fun m => senderEqb (sender m) s) l).

(** All the pending callbacks run, the oldest first. *)
Definition expireAll (st : State) : State :=
  run (repeat Expire (inFlight st)) st.

(** The entries that exchanges run one after the other append to a
    transcript of [len] entries. *)
Fixpoint sequentialEntries (len : nat) (vs : list jsstring) : list Message :=
  match vs with
  | [] => []
  | v :: r =>
      if truthy (trim v) then
        mkMessage (len + 1) v user
          :: mkMessage (len + 2) demoResponse bot
          :: sequentialEntries (len + 2) r
      else sequentialEntries len r
  end.

(** Where an entry sits in a transcript, against its id: [pos] is the
    position, counted from 1, of the first entry of [l]. *)
Fixpoint placed (pos : nat) (l : list Message) : Prop :=
  match l with
  | [] => True
  | m :: r =>
      match sender m with
      | user => id m = pos
      | bot => 1 <= id m <= pos
      end
      /\ placed (S pos) r
  end.

(** The ids held by pending callbacks, against the transcript. *)
Definition placedInvariant (st : State) : Prop :=
  placed 1 (messages st)
  /\ Forall (fun t => sender (botResponse t) = bot
                      /\ 1 <= id (botResponse t) <= S (length (messages st)))
            (timers st).

(** Every assistant reply, delivered or pending, answers one user entry. *)
Definition accountInvariant (st : State) : Prop :=
  Forall (fun t => sender (botResponse t) = bot) (timers st)
  /\ countSender bot (messages st) + inFlight st
     = countSender user (messages st).

(** Scenarios used below. *)

(** The input box holds text with surrounding spaces. *)
Definition paddedInput : State := setMessage (lit " hi ") init.

(** The input box holds spaces only. *)
Definition blankInput : State := setMessage (lit "   ") init.

(** One message was sent, its reply is pending, and new text is typed. *)
Definition replyPending : State :=
  run [Change (lit "a"); ClickSend; Change (lit "b")] init.

(** Two messages are sent before the first reply arrives; then both timers
    expire. *)
Definition overlapping : list Event :=
  [ Change (lit "a"); ClickSend; Change (lit "b"); ClickSend;
    Expire; Expire ].

End Chat.

(** ** The converter component (src/components/Converter.jsx) *)

Module Converter.

(** The fields of a DOM [File] that the component reads. *)
Record File : Type := mkFile {
  name : jsstring;
  type : jsstring;
  size : N
}.

(** The values given to [statusVariant]. *)
Inductive Variant : Type := info | success | warning | primary | danger.

Record State : Type := mkState {
  selectedFile : option File;       (* useState(null) *)
  conversionStatus : jsstring;      (* useState("Waiting for file upload...") *)
  isConverting : bool;              (* useState(false) *)
  statusVariant : Variant;          (* useState("info") *)
  audioUrl : option jsstring;       (* useState(null) *)
  isAudioReady : bool;              (* useState(false) *)
  fileInput : option jsstring;      (* value of #pdfFileInput, if mounted *)
  awaiting : nat                    (* provider calls not yet settled *)
}.

Definition waitingMsg : jsstring := lit "Waiting for file upload...".
Definition invalidMsg : jsstring := lit "Please select a valid PDF file.".
Definition selectFirstMsg : jsstring :=
  lit "Please select a PDF file first.".
Definition convertingMsg : jsstring := lit "Converting PDF to audio...".
Definition completeMsg : jsstring :=
  lit "Conversion complete! Play your audio below.".
Definition failedMsg : jsstring :=
  lit "Conversion failed. Please try again.".
Definition pdfType : jsstring := lit "application/pdf".
Definition demoAudioUrl : jsstring :=
  lit "https://www.soundjay.com/misc/sounds-yoyo/beep-07a.mp3".

Definition init : State :=
  mkState None waitingMsg false info None false (Some []) 0.

(** [e.target.files[0]] is [None] when the file dialog was dismissed. *)
Definition handleFileChange (file : option File) (st : State) : State :=
  match file with
  | Some f =>
      if JS.eqb (type f) pdfType then
        mkState (Some f) (lit "File selected: " ++ name f)
                (isConverting st) success
                (audioUrl st) (isAudioReady st) (fileInput st) (awaiting st)
      else
        mkState None invalidMsg (isConverting st) warning
                (audioUrl st) (isAudioReady st) (fileInput st) (awaiting st)
  | None =>
      mkState None waitingMsg (isConverting st) info
              (audioUrl st) (isAudioReady st) (fileInput st) (awaiting st)
  end.

(** [handleConvert] up to its [await]: either the early return, or the
    provider call is issued and the rest of the body is suspended. *)
Definition handleConvert (st : State) : State :=
  match selectedFile st with
  | None =>
      mkState None selectFirstMsg (isConverting st) warning
              (audioUrl st) (isAudioReady st) (fileInput st) (awaiting st)
  | Some f =>
      mkState (Some f) convertingMsg true primary
              (audioUrl st) (isAudioReady st) (fileInput st)
              (S (awaiting st))
  end.

(** How the awaited promise settles.  The timer of the demonstration always
    resolves; [Rejected] is the path into the [catch] block. *)
Inductive Outcome : Type := Resolved | Rejected.

(** [handleConvert] from its [await] on: the rest of the [try] block or
    the [catch] block, then the [finally] block. *)
Definition resume (o : Outcome) (st : State) : State :=
  match awaiting st with
  | 0 => st
  | S k =>
      match o with
      | Resolved =>
          mkState (selectedFile st) completeMsg false success
                  (Some demoAudioUrl) true (fileInput st) k
      | Rejected =>
          mkState (selectedFile st) failedMsg false danger
                  (audioUrl st) (isAudioReady st) (fileInput st) k
      end
  end.

Definition handleCancel (st : State) : State :=
  mkState None waitingMsg false info None false
          (match fileInput st with
           | Some _ => Some []
           | None => None
           end)
          (awaiting st).

(** [disabled={!selectedFile || isConverting}] on the Convert button. *)
Definition convertDisabled (st : State) : bool :=
  match selectedFile st with
  | None => true
  | Some _ => isConverting st
  end.

(** [{isAudioReady && audioUrl && (...)}]: the audio player is rendered. *)
Definition playerShown (st : State) : bool :=
  isAudioReady st
  && match audioUrl st with
     | Some u => truthy u
     | None => false
     end.

Inductive Event : Type :=
| FileChange (file : option File)
| Convert
| Settle (o : Outcome)
| Cancel.

Definition step (st : State) (e : Event) : State :=
  match e with
  | FileChange f => handleFileChange f st
  | Convert => handleConvert st
  | Settle o => resume o st
  | Cancel => handleCancel st
  end.

Definition run (evs : list Event) (st : State) : State :=
  fold_left step evs st.

(** The status of the conversion job as the component shows it. *)
Inductive Status : Type := idle | converting | ready | failed.

Definition jobStatus (st : State) : Status :=
  if isConverting st then converting
  else if JS.eqb (conversionStatus st) completeMsg then ready
  else if JS.eqb (conversionStatus st) failedMsg then failed
  else idle.

(** The message of a failed job: the status text under the [danger]
    variant. *)
Definition errorDetail (st : State) : option jsstring :=
  match statusVariant st with
  | danger => Some (conversionStatus st)
  | _ => None
  end.

(** What the rendered controls let through: the file input and the Cancel
    button carry [disabled={isConverting}], the Convert button
    [disabled={!selectedFile || isConverting}]. *)
Definition enabled (st : State) (e : Event) : bool :=
  match e with
  | FileChange _ => negb (isConverting st)
  | Convert => negb (convertDisabled st)
  | Settle _ => true
  | Cancel => negb (isConverting st)
  end.

Definition uiStep (st : State) (e : Event) : State :=
  if enabled st e then step st e else st.

Definition uiRun (evs : list Event) (st : State) : State :=
  fold_left uiStep evs st.

(** The status texts with the variant each is shown under. *)
Definition statusPaired (st : State) : Prop :=
  (conversionStatus st = waitingMsg /\ statusVariant st = info)
  \/ ((exists n, conversionStatus st = lit "File selected: " ++ n)
      /\ statusVariant st = success)
  \/ (conversionStatus st = invalidMsg /\ statusVariant st = warning)
  \/ (conversionStatus st = selectFirstMsg /\ statusVariant st = warning)
  \/ (conversionStatus st = convertingMsg /\ statusVariant st = primary)
  \/ (conversionStatus st = completeMsg /\ statusVariant st = success)
  \/ (conversionStatus st = failedMsg /\ statusVariant st = danger).

(** The audio reference and its flag go together. *)
Definition audioPaired (st : State) : Prop :=
  (audioUrl st = None /\ isAudioReady st = false)
  \/ (audioUrl st = Some demoAudioUrl /\ isAudioReady st = true).

(** What holds of a component driven through its rendered controls. *)
Definition gatedInvariant (st : State) : Prop :=
  awaiting st <= 1
  /\ (isConverting st = true <-> awaiting st = 1)
  /\ (isConverting st = true ->
      selectedFile st <> None
      /\ conversionStatus st = convertingMsg
      /\ statusVariant st = primary).

(** Scenarios used below. *)

Definition pdf : File := mkFile (lit "book.pdf") pdfType 1024.
Definition png : File := mkFile (lit "photo.png") (lit "image/png") 2048.

(** A file is converted, then converted again. *)
Definition secondConversion : list Event :=
  [ FileChange (Some pdf); Convert; Settle Resolved; Convert ].

End Converter.

(** * Properties *)

(** ** Strings *)

Section Trim.

Lemma trimStart_nil (s : jsstring) : trimStart s = [] <-> blank s = true.
Proof.
  induction s as [|c r IH]; simpl.
  - tauto.
  - destruct (isWhiteSpace c) eqn:Hc; simpl.
    + exact IH.
    + split; discriminate.
Qed.

Lemma trimStart_blank (s : jsstring) :
  blank (trimStart s) = true -> trimStart s = [].
Proof.
  induction s as [|c r IH]; simpl; auto.
  destruct (isWhiteSpace c) eqn:Hc; auto.
  simpl. rewrite Hc. discriminate.
Qed.

Lemma blank_app (s t : jsstring) : blank (s ++ t) = blank s && blank t.
Proof. apply forallb_app. Qed.

Lemma blank_rev (s : jsstring) : blank (rev s) = blank s.
Proof.
  induction s as [|c r IH]; simpl; auto.
  rewrite blank_app, IH. simpl. rewrite andb_true_r. apply andb_comm.
Qed.

Lemma rev_nil_inv (A : Type) (l : list A) : rev l = [] -> l = [].
Proof.
  intros H. apply (f_equal (@rev A)) in H. now rewrite rev_involutive in H.
Qed.

(** [trim] returns the empty string exactly on the strings made of white
    space only, the empty string among them. *)
Lemma trim_nil (s : jsstring) : trim s = [] <-> blank s = true.
Proof.
  unfold trim, trimEnd. split.
  - intros H. apply rev_nil_inv in H. apply trimStart_nil in H.
    rewrite blank_rev in H. apply trimStart_nil. now apply trimStart_blank.
  - intros H. apply trimStart_nil in H. now rewrite H.
Qed.

Lemma truthy_nil (s : jsstring) : truthy s = false <-> s = [].
Proof. destruct s; simpl; split; congruence. Qed.

Lemma truthy_trim_true (s : jsstring) :
  trim s <> [] -> truthy (trim s) = true.
Proof. destruct (trim s); simpl; congruence. Qed.

Lemma truthy_trim_blank (s : jsstring) :
  blank s = true -> truthy (trim s) = false.
Proof. intros H. apply truthy_nil. now apply trim_nil. Qed.

Lemma eqb_eq (s t : jsstring) : JS.eqb s t = true <-> s = t.
Proof.
  revert t. induction s as [|c r IH]; destruct t as [|d t']; simpl;
    try (split; congruence).
  rewrite andb_true_iff, N.eqb_eq, IH. split.
  - intros [-> ->]. reflexivity.
  - intros H. injection H. auto.
Qed.

Lemma eqb_neq (s t : jsstring) : JS.eqb s t = false <-> s <> t.
Proof.
  rewrite <- eqb_eq. destruct (JS.eqb s t); split; congruence.
Qed.

End Trim.

(** ** The chat component *)

Section ChatFacts.

Import Chat.

Lemma send_accepted (st : State) :
  trim (message st) <> [] ->
  handleSendMessage st =
    mkState []
      (messages st
         ++ [mkMessage (length (messages st) + 1) (message st) user])
      (timers st
         ++ [mkTimer 1000
               (mkMessage (length (messages st) + 2) demoResponse bot)]).
Proof.
  intros H. unfold handleSendMessage. now rewrite truthy_trim_true.
Qed.

Lemma send_rejected (st : State) :
  trim (message st) = [] -> handleSendMessage st = st.
Proof. intros H. unfold handleSendMessage. now rewrite H. Qed.

Lemma clickSend_eq (st : State) : clickSend st = handleSendMessage st.
Proof.
  unfold clickSend, sendDisabled, handleSendMessage.
  now destruct (truthy (trim (message st))).
Qed.

(** Every event appends to the transcript or leaves it as it is. *)
Lemma step_appends (st : State) (e : Event) :
  exists l, messages (step st e) = messages st ++ l.
Proof.
  destruct e as [v|k s| |]; simpl.
  - exists []. now rewrite app_nil_r.
  - unfold handleKeyPress.
    destruct (JS.eqb k (lit "Enter") && negb s).
    + unfold handleSendMessage. destruct (truthy _); simpl; eauto.
      exists []. now rewrite app_nil_r.
    + exists []. now rewrite app_nil_r.
  - rewrite clickSend_eq. unfold handleSendMessage.
    destruct (truthy _); simpl; eauto. exists []. now rewrite app_nil_r.
  - unfold timeout. destruct (timers st); simpl; eauto.
    exists []. now rewrite app_nil_r.
Qed.

Lemma run_appends (evs : list Event) (st : State) :
  exists l, messages (run evs st) = messages st ++ l.
Proof.
  revert st. induction evs as [|e evs IH]; intros st; simpl.
  - exists []. now rewrite app_nil_r.
  - destruct (IH (step st e)) as [l2 H2].
    destruct (step_appends st e) as [l1 H1].
    exists (l1 ++ l2). unfold run in *. now rewrite H2, H1, app_assoc.
Qed.

Lemma run_app (evs1 evs2 : list Event) (st : State) :
  run (evs1 ++ evs2) st = run evs2 (run evs1 st).
Proof. apply fold_left_app. Qed.

End ChatFacts.

Section ChatClaims.

Import Chat.

(** C3, as the spec words it, fails: on the input [" hi "] the entry that
    [handleSendMessage] appends carries the text with its spaces, not the
    trimmed text. *)
Lemma submit_trimmed_text_refuted :
  trim (message paddedInput) <> [] /\
  ~ (exists m,
       messages (handleSendMessage paddedInput)
         = messages paddedInput ++ [m]
       /\ sender m = user /\ text m = trim (message paddedInput)).
Proof.
  split.
  - vm_compute. discriminate.
  - intros [m [Hm [_ Ht]]]. vm_compute in Hm.
    injection Hm as Hm. subst m. vm_compute in Ht. discriminate.
Qed.

(** C3 (amended): for every input that is non-empty after trimming,
    [handleSendMessage] appends one user-origin entry whose text is the input
    exactly as typed; [trim] is used for the emptiness test only. *)
Theorem submit_appends_untrimmed_text (st : State) :
  trim (message st) <> [] ->
  exists m,
    messages (handleSendMessage st) = messages st ++ [m]
    /\ sender m = user
    /\ text m = message st
    /\ id m = length (messages st) + 1.
Proof.
  intros H. rewrite (send_accepted st H). simpl. eauto.
Qed.

Lemma submit_appends_untrimmed_text_witness :
  exists m,
    messages (handleSendMessage paddedInput) = initialMessages ++ [m]
    /\ sender m = user /\ text m = lit " hi " /\ id m = 3.
Proof.
  apply (submit_appends_untrimmed_text paddedInput).
  vm_compute. discriminate.
Defined.

(** C9: when the input is empty or made of white space only,
    [handleSendMessage] returns the state as it was: no entry is appended and
    no timer is registered, whether it is reached from the Send button or
    from the Enter key. *)
Theorem submit_blank_is_noop (st : State) :
  blank (message st) = true ->
  handleSendMessage st = st
  /\ clickSend st = st
  /\ (forall k s, handleKeyPress k s st = st)
  /\ messages (handleSendMessage st) = messages st
  /\ timers (handleSendMessage st) = timers st.
Proof.
  intros H. apply trim_nil in H.
  assert (E : handleSendMessage st = st) by now apply send_rejected.
  repeat split.
  - exact E.
  - now rewrite clickSend_eq.
  - intros k s. unfold handleKeyPress.
    now destruct (JS.eqb k (lit "Enter") && negb s).
  - now rewrite E.
  - now rewrite E.
Qed.

Lemma submit_blank_is_noop_witness :
  handleSendMessage blankInput = blankInput
  /\ clickSend blankInput = blankInput
  /\ (forall k s, handleKeyPress k s blankInput = blankInput)
  /\ messages (handleSendMessage blankInput) = messages blankInput
  /\ timers (handleSendMessage blankInput) = timers blankInput.
Proof.
  apply (submit_blank_is_noop blankInput).
  reflexivity.
Defined.

(** C1, as the spec words it, fails: after one accepted submission the reply
    is pending, yet the Send button is enabled for newly typed text and a
    second submission is accepted, leaving two exchanges in flight. *)
Lemma single_exchange_in_flight_refuted :
  inFlight replyPending = 1
  /\ sendDisabled replyPending = false
  /\ ~ (inFlight (step replyPending ClickSend) <= 1).
Proof.
  vm_compute. repeat split. lia.
Qed.

Lemma inFlight_reachable (n : nat) :
  exists evs, inFlight (run evs init) = n /\ message (run evs init) = [].
Proof.
  induction n as [|n [evs [Hn Hm]]].
  - exists []. split; reflexivity.
  - exists (evs ++ [Change (lit "a"); ClickSend]).
    rewrite run_app. simpl. rewrite clickSend_eq.
    rewrite send_accepted by (vm_compute; discriminate).
    unfold inFlight in *. simpl. rewrite length_app, Hn. simpl.
    split; [lia | reflexivity].
Qed.

(** C1 (amended): the component has no waiting state.  Whether a submission
    is accepted depends on the input alone: with an input that is non-empty
    after trimming the Send button is enabled and the submission adds one
    exchange in flight, whatever is pending; with a blank input it is
    rejected.  An accepted submission empties the input, so repeating it
    without typing is rejected.  Any number of exchanges can be in flight.
    The Enter key without Shift does what the Send button does. *)
Theorem submit_guard_is_blank_input_only :
  (forall st, trim (message st) <> [] ->
     sendDisabled st = false
     /\ inFlight (clickSend st) = S (inFlight st)
     /\ clickSend (clickSend st) = clickSend st)
  /\ (forall st, trim (message st) = [] ->
        sendDisabled st = true /\ clickSend st = st)
  /\ (forall n, exists evs, inFlight (run evs init) = n)
  /\ (forall st, handleKeyPress (lit "Enter") false st = clickSend st).
Proof.
  split; [|split; [|split]].
  - intros st H. repeat split.
    + unfold sendDisabled. now rewrite truthy_trim_true.
    + rewrite clickSend_eq, (send_accepted st H). unfold inFlight. simpl.
      rewrite length_app. simpl. lia.
    + rewrite !clickSend_eq. rewrite (send_accepted st H).
      now apply send_rejected.
  - intros st H. split.
    + unfold sendDisabled. now rewrite H.
    + rewrite clickSend_eq. now apply send_rejected.
  - intros n. destruct (inFlight_reachable n) as [evs [H _]]. eauto.
  - intros st. now rewrite clickSend_eq.
Qed.

Lemma submit_guard_is_blank_input_only_witness :
  (sendDisabled replyPending = false
   /\ inFlight (clickSend replyPending) = S (inFlight replyPending)
   /\ clickSend (clickSend replyPending) = clickSend replyPending)
  /\ (sendDisabled (clickSend replyPending) = true
      /\ clickSend (clickSend replyPending) = clickSend replyPending).
Proof.
  split.
  - apply (proj1 submit_guard_is_blank_input_only).
    vm_compute. discriminate.
  - apply (proj1 (proj2 submit_guard_is_blank_input_only)).
    reflexivity.
Defined.

End ChatClaims.

Section ChatTranscript.

Import Chat.

(** C4 (the code departs from the claim): when a second message is sent while
    the reply to the first is pending, the first reply and the second user
    entry both get id 4, so the ids of the transcript, in append order, are
    not strictly increasing. *)
Theorem overlapping_exchanges_repeat_an_id :
  ids (run overlapping init) = [1; 2; 3; 4; 4; 5]
  /\ strictlyIncreasing (ids (run overlapping init)) = false
  /\ map sender (messages (run overlapping init))
       = [bot; user; user; user; bot; bot].
Proof. repeat split. Qed.

Lemma strictlyIncreasing_seq (a n : nat) : strictlyIncreasing (seq a n) = true.
Proof.
  revert a. induction n as [|n IH]; intros a; auto.
  specialize (IH (S a)). simpl in *. destruct n; auto.
  simpl in *. rewrite IH. rewrite andb_true_r. apply Nat.ltb_lt. lia.
Qed.

Lemma exchange_ids (st : State) (v : jsstring) :
  timers st = [] ->
  ids st = seq 1 (length (messages st)) ->
  timers (exchange st v) = []
  /\ ids (exchange st v) = seq 1 (length (messages (exchange st v))).
Proof.
  intros Ht Hi. unfold exchange, handleSendMessage. simpl.
  destruct (truthy (trim v)); unfold timeout; simpl; rewrite Ht; simpl.
  - split; auto. unfold ids in *. simpl.
    rewrite !map_app, Hi, !length_app. simpl.
    generalize (length (messages st)). intros n.
    rewrite !seq_app. simpl.
    replace (S n) with (n + 1) by lia.
    replace (S (n + 1)) with (n + 2) by lia. reflexivity.
  - rewrite Ht. auto.
Qed.

(** When every exchange ends before the next one starts, the ids are
    1, 2, 3, ... in append order. *)
Lemma sequential_exchanges_ids (vs : list jsstring) :
  timers (fold_left exchange vs init) = []
  /\ ids (fold_left exchange vs init)
       = seq 1 (length (messages (fold_left exchange vs init)))
  /\ strictlyIncreasing (ids (fold_left exchange vs init)) = true.
Proof.
  assert (G : forall st,
             timers st = [] -> ids st = seq 1 (length (messages st)) ->
             timers (fold_left exchange vs st) = []
             /\ ids (fold_left exchange vs st)
                  = seq 1 (length (messages (fold_left exchange vs st)))).
  { induction vs as [|v vs IH]; intros st Ht Hi; simpl; auto.
    destruct (exchange_ids st v Ht Hi) as [Ht2 Hi2]. now apply IH. }
  destruct (G init eq_refl eq_refl) as [Ht Hi].
  repeat split; auto. rewrite Hi. apply strictlyIncreasing_seq.
Qed.

End ChatTranscript.

Section ChatReplies.

Import Chat.

Lemma registered_accepted (st : State) :
  trim (message st) <> [] ->
  registered st =
    [mkTimer 1000 (mkMessage (length (messages st) + 2) demoResponse bot)].
Proof.
  intros H. unfold registered. rewrite (send_accepted st H). simpl.
  rewrite skipn_app, skipn_all, Nat.sub_diag. reflexivity.
Qed.

Lemma registered_rejected (st : State) :
  trim (message st) = [] -> registered st = [].
Proof.
  intros H. unfold registered. rewrite (send_rejected st H).
  apply skipn_all.
Qed.

Lemma registered_cases (st : State) (t : Timer) :
  In t (registered st) ->
  t = mkTimer 1000 (mkMessage (length (messages st) + 2) demoResponse bot).
Proof.
  destruct (trim (message st)) eqn:E.
  - rewrite (registered_rejected st E). intros [].
  - rewrite registered_accepted by (rewrite E; discriminate).
    intros [H|[]]. now symmetry.
Qed.

(** C6, as the spec words it, fails: no two calls of [handleSendMessage], in
    whatever states, register replies with different texts. *)
Lemma distinct_replies_refuted :
  ~ (exists (st1 st2 : State) (t1 t2 : Timer),
       In t1 (registered st1) /\ In t2 (registered st2)
       /\ text (botResponse t1) <> text (botResponse t2)).
Proof.
  intros [st1 [st2 [t1 [t2 [H1 [H2 N]]]]]].
  apply registered_cases in H1, H2. subst. now apply N.
Qed.

Lemma replyInvariant_send (st : State) :
  replyInvariant st -> replyInvariant (handleSendMessage st).
Proof.
  intros [Ht Hm]. unfold handleSendMessage.
  destruct (truthy (trim (message st))); [|now split].
  split; simpl; apply Forall_app; split; auto; repeat constructor.
  simpl. discriminate.
Qed.

Lemma replyInvariant_step (st : State) (e : Event) :
  replyInvariant st -> replyInvariant (step st e).
Proof.
  intros I. destruct e as [v|k s| |]; simpl.
  - exact I.
  - unfold handleKeyPress. destruct (_ && _); auto.
    now apply replyInvariant_send.
  - rewrite clickSend_eq. now apply replyInvariant_send.
  - unfold replyInvariant in *. destruct I as [Ht Hm]. unfold timeout.
    destruct (timers st) as [|t rest] eqn:Et; simpl.
    { rewrite Et. now split. }
    inversion Ht as [|? ? Hd Hr]; subst. split; simpl; auto.
    apply Forall_app. split; auto.
Qed.

Lemma replyInvariant_run (evs : list Event) (st : State) :
  replyInvariant st -> replyInvariant (run evs st).
Proof.
  revert st. induction evs as [|e evs IH]; intros st I; simpl; auto.
  apply IH. now apply replyInvariant_step.
Qed.

(** C6 (amended): the demonstration provider of Chat.jsx does not choose among
    several replies.  Every reply that [handleSendMessage] registers is the one
    fixed text, to be delivered by a timer of 1000 milliseconds; and in every
    transcript that can arise, an assistant-origin entry carries either that
    text or the greeting of the initial transcript. *)
Theorem demo_reply_is_one_fixed_text :
  (forall (st : State) (t : Timer),
     In t (registered st) ->
     text (botResponse t) = demoResponse
     /\ sender (botResponse t) = bot
     /\ delay t = 1000)
  /\ (forall (evs : list Event) (m : Message),
        In m (messages (run evs init)) -> sender m = bot ->
        text m = greeting \/ text m = demoResponse).
Proof.
  split.
  - intros st t H. apply registered_cases in H. subst. repeat split.
  - intros evs m Hin Hs.
    assert (I : replyInvariant (run evs init)).
    { apply replyInvariant_run. split; repeat constructor.
      simpl. discriminate. }
    destruct I as [_ Hm]. rewrite Forall_forall in Hm. now apply Hm.
Qed.

Lemma demo_reply_is_one_fixed_text_witness :
  (text (botResponse (mkTimer 1000 (mkMessage 4 demoResponse bot)))
     = demoResponse
   /\ sender (botResponse (mkTimer 1000 (mkMessage 4 demoResponse bot))) = bot
   /\ delay (mkTimer 1000 (mkMessage 4 demoResponse bot)) = 1000)
  /\ (text (mkMessage 4 demoResponse bot) = greeting
      \/ text (mkMessage 4 demoResponse bot) = demoResponse).
Proof.
  split.
  - apply (proj1 demo_reply_is_one_fixed_text paddedInput).
    simpl. left. reflexivity.
  - apply (proj2 demo_reply_is_one_fixed_text
             [Change (lit "a"); ClickSend; Expire]).
    + simpl. right. right. right. left. reflexivity.
    + reflexivity.
Defined.

Lemma headInvariant_send (st : State) :
  headInvariant st -> headInvariant (handleSendMessage st).
Proof.
  intros [l [Hm Hl]]. unfold handleSendMessage.
  destruct (truthy (trim (message st))); [|now exists l].
  simpl. rewrite Hm. destruct l as [|m l].
  - eexists. split; [reflexivity|]. simpl. auto.
  - exists ((m :: l) ++ [mkMessage (length (initialMessages ++ m :: l) + 1)
                           (message st) user]).
    split; [now rewrite app_assoc | exact Hl].
Qed.

Lemma headInvariant_step (st : State) (e : Event) :
  headInvariant st -> headInvariant (step st e).
Proof.
  intros I. destruct e as [v|k s| |]; simpl.
  - exact I.
  - unfold handleKeyPress. destruct (_ && _); auto.
    now apply headInvariant_send.
  - rewrite clickSend_eq. now apply headInvariant_send.
  - destruct I as [l [Hm Hl]]. unfold headInvariant, timeout.
    destruct (timers st) as [|t rest] eqn:Et; simpl.
    { exists l. now rewrite Et. }
    rewrite Hm. destruct l as [|m l]; [discriminate|].
    exists ((m :: l) ++ [botResponse t]).
    split; [reflexivity | exact Hl].
Qed.

Lemma headInvariant_run (evs : list Event) (st : State) :
  headInvariant st -> headInvariant (run evs st).
Proof.
  revert st. induction evs as [|e evs IH]; intros st I; simpl; auto.
  apply IH. now apply headInvariant_step.
Qed.

(** C10: the transcript is created with two placeholder entries, the
    assistant-origin greeting with id 1 and the user-origin ["Hi!"] with
    id 2.  In every transcript that can arise these two stay the first two
    entries, so a transcript never starts with a submitted entry, and the
    third entry, the first that a submission appends, is user-origin and has
    id 3. *)
Theorem transcript_starts_with_two_placeholders :
  messages init
    = [ mkMessage 1 (lit "Hello! How can I assist you today?") bot;
        mkMessage 2 (lit "Hi!") user ]
  /\ (forall evs : list Event,
        firstn 2 (messages (run evs init)) = messages init)
  /\ (forall (evs : list Event) (m : Message),
        nth_error (messages (run evs init)) 2 = Some m ->
        id m = 3 /\ sender m = user)
  /\ (forall v : jsstring,
        trim v <> [] ->
        messages (handleSendMessage (setMessage v init))
          = messages init ++ [mkMessage 3 v user]).
Proof.
  split; [reflexivity|]. split; [|split].
  - intros evs. destruct (run_appends evs init) as [l H].
    rewrite H. reflexivity.
  - intros evs m H.
    destruct (headInvariant_run evs (st := init)) as [l [Hm Hl]].
    { exists []. split; reflexivity. }
    rewrite Hm in H. destruct l as [|m' l]; simpl in H; [discriminate|].
    injection H as <-. exact Hl.
  - intros v H. rewrite send_accepted by exact H. reflexivity.
Qed.

Lemma transcript_starts_with_two_placeholders_witness :
  (id (mkMessage 3 (lit " hi ") user) = 3
   /\ sender (mkMessage 3 (lit " hi ") user) = user)
  /\ messages (handleSendMessage (setMessage (lit " hi ") init))
       = messages init ++ [mkMessage 3 (lit " hi ") user].
Proof.
  split.
  - apply (proj1 (proj2 (proj2 transcript_starts_with_two_placeholders))
             [Change (lit " hi "); ClickSend]).
    reflexivity.
  - apply (proj2 (proj2 (proj2 transcript_starts_with_two_placeholders))).
    vm_compute. discriminate.
Defined.

End ChatReplies.

(** ** The converter component *)

Section ConverterClaims.

Import Converter.

(** C7: a file whose declared type is not ["application/pdf"] is not stored
    by [handleFileChange], which reports the warning that asks for a valid
    PDF file; [handleConvert] called next takes its early return: it reports
    the warning that asks to select a file first, issues no provider call and
    does not set [isConverting].  The Convert button is disabled as well. *)
Theorem rejected_file_blocks_convert (f : File) (st : State) :
  type f <> pdfType ->
  selectedFile (handleFileChange (Some f) st) = None
  /\ conversionStatus (handleFileChange (Some f) st) = invalidMsg
  /\ statusVariant (handleFileChange (Some f) st) = warning
  /\ convertDisabled (handleFileChange (Some f) st) = true
  /\ conversionStatus (handleConvert (handleFileChange (Some f) st))
       = lit "Please select a PDF file first."
  /\ statusVariant (handleConvert (handleFileChange (Some f) st)) = warning
  /\ awaiting (handleConvert (handleFileChange (Some f) st)) = awaiting st
  /\ isConverting (handleConvert (handleFileChange (Some f) st))
       = isConverting st
  /\ selectedFile (handleConvert (handleFileChange (Some f) st)) = None.
Proof.
  intros H. apply eqb_neq in H. unfold handleFileChange. rewrite H.
  repeat split.
Qed.

Lemma rejected_file_blocks_convert_witness :
  selectedFile (handleFileChange (Some png) init) = None
  /\ conversionStatus (handleFileChange (Some png) init) = invalidMsg
  /\ statusVariant (handleFileChange (Some png) init) = warning
  /\ convertDisabled (handleFileChange (Some png) init) = true
  /\ conversionStatus (handleConvert (handleFileChange (Some png) init))
       = lit "Please select a PDF file first."
  /\ statusVariant (handleConvert (handleFileChange (Some png) init))
       = warning
  /\ awaiting (handleConvert (handleFileChange (Some png) init))
       = awaiting init
  /\ isConverting (handleConvert (handleFileChange (Some png) init))
       = isConverting init
  /\ selectedFile (handleConvert (handleFileChange (Some png) init)) = None.
Proof.
  apply (rejected_file_blocks_convert png init).
  vm_compute. discriminate.
Defined.

(** C8: whatever the state, [handleCancel] returns at once the state of a
    component just created: the job is idle, no file is selected, there is
    no audio reference and no failure message; no provider call is issued. *)
Theorem cancel_resets_to_idle (st : State) :
  jobStatus (handleCancel st) = idle
  /\ selectedFile (handleCancel st) = None
  /\ audioUrl (handleCancel st) = None
  /\ isAudioReady (handleCancel st) = false
  /\ playerShown (handleCancel st) = false
  /\ errorDetail (handleCancel st) = None
  /\ isConverting (handleCancel st) = false
  /\ conversionStatus (handleCancel st) = conversionStatus init
  /\ statusVariant (handleCancel st) = statusVariant init
  /\ awaiting (handleCancel st) = awaiting st.
Proof. repeat split. Qed.

(** C2, as the spec words it, fails: when a file is converted a second time,
    the job is converting and the audio reference of the first conversion is
    still held and its player still shown. *)
Lemma no_result_while_converting_refuted :
  ~ (jobStatus (run secondConversion init) = converting ->
     audioUrl (run secondConversion init) = None)
  /\ playerShown (run secondConversion init) = true.
Proof.
  split; [|reflexivity]. intros H. specialize (H eq_refl). discriminate H.
Qed.

(** C2 (amended): [handleConvert] keeps the audio reference that the state
    holds.  The reference is set when a conversion resolves and is cleared by
    [handleCancel] only, so the reference of an earlier job stays observable
    while a later job is converting.  For a job started while no reference is
    held, none is observable during the conversion, and once the job has
    settled a reference is held if and only if the job is ready. *)
Theorem result_reference_kept_until_cancel :
  (forall (st : State) (f : File),
     selectedFile st = Some f ->
     jobStatus (handleConvert st) = converting
     /\ audioUrl (handleConvert st) = audioUrl st
     /\ isAudioReady (handleConvert st) = isAudioReady st)
  /\ (forall (st : State) (e : Event),
        e <> Cancel -> audioUrl st <> None -> audioUrl (step st e) <> None)
  /\ (forall (st : State) (f : File) (o : Outcome),
        selectedFile st = Some f -> audioUrl st = None ->
        audioUrl (handleConvert st) = None
        /\ (audioUrl (resume o (handleConvert st)) <> None
            <-> jobStatus (resume o (handleConvert st)) = ready)
        /\ (audioUrl (resume o (handleConvert st)) = None
            <-> jobStatus (resume o (handleConvert st)) = failed)).
Proof.
  split; [|split].
  - intros st f H. unfold handleConvert. rewrite H. repeat split.
  - intros st e He Ha. destruct e as [[g|]| |o|]; simpl; try congruence.
    + unfold handleFileChange. destruct (JS.eqb (type g) pdfType); exact Ha.
    + unfold handleConvert. destruct (selectedFile st); exact Ha.
    + unfold resume. destruct (awaiting st); [exact Ha|].
      destruct o; simpl; [discriminate | exact Ha].
  - intros st f o H Ha. unfold handleConvert. rewrite H. simpl.
    split; [exact Ha|]. destruct o; simpl; rewrite ?Ha.
    + split; split; intros; try reflexivity; discriminate.
    + split; split; intros; try reflexivity; try discriminate; congruence.
Qed.

Lemma result_reference_kept_until_cancel_witness :
  (jobStatus (handleConvert (run [FileChange (Some pdf); Convert;
                                  Settle Resolved] init)) = converting
   /\ audioUrl (handleConvert (run [FileChange (Some pdf); Convert;
                                    Settle Resolved] init))
        = Some demoAudioUrl
   /\ isAudioReady (handleConvert (run [FileChange (Some pdf); Convert;
                                        Settle Resolved] init)) = true)
  /\ audioUrl (step (run [FileChange (Some pdf); Convert; Settle Resolved]
                         init) (FileChange (Some png))) <> None
  /\ (audioUrl (handleConvert (handleFileChange (Some pdf) init)) = None
      /\ (audioUrl (resume Rejected
                      (handleConvert (handleFileChange (Some pdf) init)))
            <> None
          <-> jobStatus (resume Rejected
                           (handleConvert (handleFileChange (Some pdf) init)))
                = ready)
      /\ (audioUrl (resume Rejected
                      (handleConvert (handleFileChange (Some pdf) init)))
            = None
          <-> jobStatus (resume Rejected
                           (handleConvert (handleFileChange (Some pdf) init)))
                = failed)).
Proof.
  split; [|split].
  - apply (proj1 result_reference_kept_until_cancel
             (run [FileChange (Some pdf); Convert; Settle Resolved] init)
             pdf).
    reflexivity.
  - apply (proj1 (proj2 result_reference_kept_until_cancel)).
    + discriminate.
    + vm_compute. discriminate.
  - apply (proj2 (proj2 result_reference_kept_until_cancel)
             (handleFileChange (Some pdf) init) pdf Rejected).
    + reflexivity.
    + reflexivity.
Defined.

End ConverterClaims.

(** * Further properties of the chat component *)

Section ChatOrder.

Import Chat.

Lemma truthy_trim_negb_blank (s : jsstring) :
  truthy (trim s) = negb (blank s).
Proof.
  destruct (blank s) eqn:B.
  - now apply truthy_trim_blank.
  - apply truthy_trim_true. intros E. apply trim_nil in E. congruence.
Qed.

Lemma blank_false (s : jsstring) :
  blank s = false <-> exists c, In c s /\ isWhiteSpace c = false.
Proof.
  unfold blank. split.
  - induction s as [|c r IH]; simpl; [discriminate|].
    destruct (isWhiteSpace c) eqn:Hc; simpl.
    + intros H. destruct (IH H) as [d [Hd Hw]]. eauto.
    + intros _. eauto.
  - intros [c [Hin Hw]]. destruct (forallb isWhiteSpace s) eqn:F; auto.
    rewrite forallb_forall in F. rewrite (F c Hin) in Hw. discriminate.
Qed.

Lemma send_changes_state (st : State) :
  trim (message st) <> [] -> handleSendMessage st <> st.
Proof.
  intros H E. rewrite (send_accepted st H) in E.
  apply (f_equal (fun x => length (messages x))) in E. simpl in E.
  rewrite length_app in E. simpl in E. lia.
Qed.

(** X1: whatever the events and the starting state, the transcript afterwards
    is the transcript before with entries added at its end: no entry is
    removed, moved or edited. *)
Theorem transcript_is_append_only (evs : list Event) (st : State) :
  (exists l, messages (run evs st) = messages st ++ l)
  /\ (forall i m,
        nth_error (messages st) i = Some m ->
        nth_error (messages (run evs st)) i = Some m).
Proof.
  destruct (run_appends evs st) as [l H]. split; [eauto|].
  intros i m Hn. rewrite H, nth_error_app1; auto.
  apply nth_error_Some. congruence.
Qed.

Lemma transcript_is_append_only_witness :
  nth_error (messages (run overlapping init)) 1
    = Some (mkMessage 2 (lit "Hi!") user).
Proof.
  apply (proj2 (transcript_is_append_only overlapping init)).
  reflexivity.
Defined.

Lemma countSender_app (s : Sender) (l1 l2 : list Message) :
  countSender s (l1 ++ l2) = countSender s l1 + countSender s l2.
Proof. unfold countSender. now rewrite filter_app, length_app. Qed.

Lemma countSender_one (s : Sender) (m : Message) :
  countSender s [m] = if senderEqb (sender m) s then 1 else 0.
Proof. unfold countSender. simpl. now destruct (senderEqb (sender m) s). Qed.

Lemma accountInvariant_send (st : State) :
  accountInvariant st -> accountInvariant (handleSendMessage st).
Proof.
  intros [Ht Hc]. unfold handleSendMessage.
  destruct (truthy (trim (message st))); [|now split].
  split; simpl.
  - apply Forall_app. split; auto.
  - unfold inFlight in *. simpl.
    rewrite !countSender_app, !countSender_one, length_app. simpl. lia.
Qed.

Lemma accountInvariant_step (st : State) (e : Event) :
  accountInvariant st -> accountInvariant (step st e).
Proof.
  intros I. destruct e as [v|k s| |]; simpl.
  - exact I.
  - unfold handleKeyPress. destruct (_ && _); auto.
    now apply accountInvariant_send.
  - rewrite clickSend_eq. now apply accountInvariant_send.
  - unfold accountInvariant, inFlight in *. destruct I as [Ht Hc].
    unfold timeout. destruct (timers st) as [|t rest] eqn:Et; simpl.
    { rewrite Et. now split. }
    inversion Ht as [|? ? Hd Hr]; subst. split; auto.
    rewrite !countSender_app, !countSender_one, Hd. simpl in *. lia.
Qed.

(** X2: in every state the component can reach, the assistant entries of the
    transcript together with the pending replies are as many as the user
    entries: each message sent gets one reply, delivered or still pending,
    and no reply comes without a message. *)
Theorem replies_match_user_entries (evs : list Event) :
  countSender bot (messages (run evs init)) + inFlight (run evs init)
    = countSender user (messages (run evs init)).
Proof.
  assert (G : forall st, accountInvariant st -> accountInvariant (run evs st)).
  { induction evs as [|e evs IH]; intros st I; simpl; auto.
    apply IH. now apply accountInvariant_step. }
  apply (G init). split; [constructor | reflexivity].
Qed.

Lemma placed_app (pos : nat) (l1 l2 : list Message) :
  placed pos (l1 ++ l2) <-> placed pos l1 /\ placed (pos + length l1) l2.
Proof.
  revert pos. induction l1 as [|m l1 IH]; intros pos; simpl.
  - rewrite Nat.add_0_r. tauto.
  - rewrite IH. replace (S pos + length l1) with (pos + S (length l1)) by lia.
    tauto.
Qed.

Lemma placed_nth (l : list Message) (pos i : nat) (m : Message) :
  placed pos l -> nth_error l i = Some m ->
  match sender m with
  | user => id m = pos + i
  | bot => 1 <= id m <= pos + i
  end.
Proof.
  revert pos i. induction l as [|x l IH]; intros pos i P H.
  - destruct i; discriminate.
  - destruct P as [Px Pl]. destruct i as [|i]; simpl in H.
    + injection H as <-. now rewrite Nat.add_0_r.
    + replace (pos + S i) with (S pos + i) by lia. now apply IH.
Qed.

Lemma placedInvariant_send (st : State) :
  placedInvariant st -> placedInvariant (handleSendMessage st).
Proof.
  intros [Pm Pt]. unfold handleSendMessage.
  destruct (truthy (trim (message st))); [|now split].
  split; simpl.
  - apply placed_app. split; auto. simpl. split; [lia | exact I].
  - rewrite length_app. simpl. apply Forall_app. split.
    + eapply Forall_impl; [|exact Pt]. simpl. intros t [Hs Hi]. split; auto.
      lia.
    + constructor; [|constructor]. simpl. split; [reflexivity | lia].
Qed.

Lemma placedInvariant_step (st : State) (e : Event) :
  placedInvariant st -> placedInvariant (step st e).
Proof.
  intros P. destruct e as [v|k s| |]; simpl.
  - exact P.
  - unfold handleKeyPress. destruct (_ && _); auto.
    now apply placedInvariant_send.
  - rewrite clickSend_eq. now apply placedInvariant_send.
  - unfold placedInvariant in *. destruct P as [Pm Pt]. unfold timeout.
    destruct (timers st) as [|t rest] eqn:Et; simpl.
    { rewrite Et. now split. }
    inversion Pt as [|? ? [Hs Hi] Hr]; subst. split.
    + apply placed_app. split; auto. simpl. rewrite Hs. split; [lia|exact I].
    + rewrite length_app. simpl. eapply Forall_impl; [|exact Hr].
      simpl. intros u [Hu Hv]. split; auto. lia.
Qed.

Lemma placedInvariant_run (evs : list Event) (st : State) :
  placedInvariant st -> placedInvariant (run evs st).
Proof.
  revert st. induction evs as [|e evs IH]; intros st P; simpl; auto.
  apply IH. now apply placedInvariant_step.
Qed.

Lemma placedInvariant_init : placedInvariant init.
Proof.
  split; [|constructor]. simpl. repeat split; lia.
Qed.

(** X3: in every transcript the component can reach, a user-origin entry has
    the id of its position (counted from 1), and an assistant-origin entry
    has an id between 1 and its position. *)
Theorem ids_against_positions (evs : list Event) (i : nat) (m : Message) :
  nth_error (messages (run evs init)) i = Some m ->
  (sender m = user -> id m = S i)
  /\ (sender m = bot -> 1 <= id m <= S i).
Proof.
  intros H.
  destruct (@placedInvariant_run evs init placedInvariant_init) as [P _].
  pose proof (@placed_nth _ _ _ _ P H) as Q.
  destruct (sender m); split; intros E; try discriminate; simpl in Q; lia.
Qed.

Lemma ids_against_positions_witness :
  (sender (mkMessage 4 demoResponse bot) = user ->
   id (mkMessage 4 demoResponse bot) = 5)
  /\ (sender (mkMessage 4 demoResponse bot) = bot ->
      1 <= id (mkMessage 4 demoResponse bot) <= 5).
Proof.
  apply (ids_against_positions overlapping 4). reflexivity.
Defined.

(** X4: when two entries of a reachable transcript carry the same id, the
    later one is an assistant reply; two user-origin entries never share an
    id. *)
Theorem repeated_id_is_a_late_reply
  (evs : list Event) (i j : nat) (a b : Message) :
  i < j ->
  nth_error (messages (run evs init)) i = Some a ->
  nth_error (messages (run evs init)) j = Some b ->
  id a = id b ->
  sender b = bot.
Proof.
  intros Hij Ha Hb E.
  destruct (@placedInvariant_run evs init placedInvariant_init) as [P _].
  pose proof (@placed_nth _ _ _ _ P Ha) as Qa.
  pose proof (@placed_nth _ _ _ _ P Hb) as Qb.
  destruct (sender b); [|reflexivity].
  destruct (sender a); simpl in *; lia.
Qed.

Lemma repeated_id_is_a_late_reply_witness :
  sender (mkMessage 4 demoResponse bot) = bot.
Proof.
  apply (repeated_id_is_a_late_reply overlapping (i := 3) (j := 4)
           (a := mkMessage 4 (lit "b") user)).
  - lia.
  - reflexivity.
  - reflexivity.
  - reflexivity.
Defined.

End ChatOrder.

Section ChatFlow.

Import Chat.

Lemma run_expire (n : nat) (st : State) :
  n = length (timers st) ->
  run (repeat Expire n) st
    = mkState (message st) (messages st ++ map botResponse (timers st)) [].
Proof.
  revert st. induction n as [|n IH]; intros [msg ms ts] H; simpl in *.
  - destruct ts; [|discriminate]. simpl. now rewrite app_nil_r.
  - destruct ts as [|t rest]; [discriminate|].
    injection H as H. unfold run in IH. unfold timeout at 1. simpl.
    rewrite IH by exact H. simpl. now rewrite <- app_assoc.
Qed.

(** X5: from any state, once every pending timer has expired nothing is
    pending any more, the transcript has grown by exactly the pending
    replies in the order in which they were registered, and the text in the
    input box is untouched. *)
Theorem pending_replies_arrive_in_order (st : State) :
  messages (expireAll st) = messages st ++ map botResponse (timers st)
  /\ timers (expireAll st) = []
  /\ message (expireAll st) = message st.
Proof.
  unfold expireAll, inFlight. rewrite run_expire by reflexivity.
  repeat split.
Qed.

(** X6: the Send button and the handler agree.  The button is disabled
    exactly when a call of [handleSendMessage] would change nothing, and it
    is enabled exactly when the input holds a character that is not white
    space. *)
Theorem send_button_matches_handler (st : State) :
  (sendDisabled st = true <-> handleSendMessage st = st)
  /\ (sendDisabled st = false <->
      exists c, In c (message st) /\ isWhiteSpace c = false).
Proof.
  unfold sendDisabled. rewrite truthy_trim_negb_blank, negb_involutive.
  split.
  - split.
    + intros B. apply send_rejected. now apply trim_nil.
    + intros E. destruct (blank (message st)) eqn:B; auto.
      exfalso. apply (@send_changes_state st); auto.
      intros T. apply trim_nil in T. congruence.
  - apply blank_false.
Qed.

Lemma send_button_matches_handler_witness :
  handleSendMessage blankInput = blankInput
  /\ sendDisabled paddedInput = false.
Proof.
  split.
  - apply (proj1 (proj1 (send_button_matches_handler blankInput))).
    reflexivity.
  - apply (proj2 (proj2 (send_button_matches_handler paddedInput))).
    exists 104%N. split; [simpl; auto | reflexivity].
Defined.

(** X7: a key press changes the state only when the key is Enter, Shift is
    not held and the input is non-empty after trimming; Shift+Enter and
    every other key leave the state as it is. *)
Theorem key_press_sends_on_plain_enter_only
  (key : jsstring) (shiftKey : bool) (st : State) :
  handleKeyPress key shiftKey st <> st
  <-> key = lit "Enter" /\ shiftKey = false /\ trim (message st) <> [].
Proof.
  unfold handleKeyPress. split.
  - destruct (JS.eqb key (lit "Enter")) eqn:K; simpl.
    + destruct shiftKey; simpl; [congruence|]. intros H.
      apply eqb_eq in K. repeat split; auto.
      intros T. apply H. now apply send_rejected.
    + congruence.
  - intros [-> [-> T]]. simpl. now apply send_changes_state.
Qed.

Lemma key_press_sends_on_plain_enter_only_witness :
  handleKeyPress (lit "Enter") false paddedInput <> paddedInput.
Proof.
  apply (proj2 (key_press_sends_on_plain_enter_only
                  (lit "Enter") false paddedInput)).
  repeat split. vm_compute. discriminate.
Defined.

Lemma exchange_accepted (st : State) (v : jsstring) :
  timers st = [] -> trim v <> [] ->
  exchange st v
    = mkState []
        (messages st
           ++ [ mkMessage (length (messages st) + 1) v user;
                mkMessage (length (messages st) + 2) demoResponse bot ])
        [].
Proof.
  intros Ht Hv. unfold exchange.
  rewrite send_accepted by exact Hv. simpl. rewrite Ht.
  unfold timeout. simpl. now rewrite <- app_assoc.
Qed.

Lemma exchange_rejected (st : State) (v : jsstring) :
  timers st = [] -> trim v = [] -> exchange st v = setMessage v st.
Proof.
  intros Ht Hv. unfold exchange.
  rewrite send_rejected by exact Hv. unfold timeout. simpl. now rewrite Ht.
Qed.

(** X8: when each exchange ends before the next text is sent, the transcript
    grows, for every text that is non-empty after trimming and in the order
    typed, by a user entry with the text as typed followed by the
    demonstration reply, with consecutive ids that continue the count of the
    entries; blank texts add nothing; nothing stays pending. *)
Theorem sequential_exchanges_transcript (vs : list jsstring) (st : State) :
  timers st = [] ->
  messages (fold_left exchange vs st)
    = messages st ++ sequentialEntries (length (messages st)) vs
  /\ timers (fold_left exchange vs st) = [].
Proof.
  revert st. induction vs as [|v vs IH]; intros st Ht; simpl.
  - now rewrite app_nil_r.
  - destruct (trim v) eqn:Tv; simpl.
    + rewrite exchange_rejected by assumption.
      destruct (IH (setMessage v st) Ht) as [Hm Hq]. now split.
    + assert (Hv : trim v <> []) by (rewrite Tv; discriminate).
      rewrite exchange_accepted by assumption.
      match goal with
      | |- context [fold_left exchange vs ?s] =>
          destruct (IH s eq_refl) as [Hm Hq]
      end.
      rewrite Hm. simpl. rewrite length_app. simpl.
      rewrite <- app_assoc. simpl. split; [reflexivity | exact Hq].
Qed.

Lemma sequential_exchanges_transcript_witness :
  messages (fold_left exchange [lit " hi "; lit "   "; lit "ok"] init)
    = messages init
        ++ [ mkMessage 3 (lit " hi ") user; mkMessage 4 demoResponse bot;
             mkMessage 5 (lit "ok") user; mkMessage 6 demoResponse bot ]
  /\ timers (fold_left exchange [lit " hi "; lit "   "; lit "ok"] init) = [].
Proof.
  apply (sequential_exchanges_transcript
           [lit " hi "; lit "   "; lit "ok"] init).
  reflexivity.
Defined.

End ChatFlow.

(** * Further properties of the converter component *)

Section ConverterInvariants.

Import Converter.

Lemma run_invariant (P : State -> Prop) :
  (forall st e, P st -> P (step st e)) ->
  forall evs st, P st -> P (run evs st).
Proof.
  intros Hstep evs. induction evs as [|e evs IH]; intros st H; simpl; auto.
Qed.

Lemma uiRun_invariant (P : State -> Prop) :
  (forall st e, P st -> P (uiStep st e)) ->
  forall evs st, P st -> P (uiRun evs st).
Proof.
  intros Hstep evs. induction evs as [|e evs IH]; intros st H; simpl; auto.
Qed.

Lemma selected_pdf_step (st : State) (e : Event) :
  (forall f, selectedFile st = Some f -> type f = pdfType) ->
  forall f, selectedFile (step st e) = Some f -> type f = pdfType.
Proof.
  intros I f. destruct e as [[g|]| |o|]; simpl.
  - unfold handleFileChange. destruct (JS.eqb (type g) pdfType) eqn:E; simpl.
    + intros H. injection H as <-. now apply eqb_eq.
    + discriminate.
  - discriminate.
  - unfold handleConvert. destruct (selectedFile st) eqn:S; simpl.
    + intros H. injection H as <-. now apply I.
    + discriminate.
  - unfold resume. destruct (awaiting st); [apply I|].
    destruct o; simpl; apply I.
  - discriminate.
Qed.

(** X10: in every state the component can reach, a selected file has the
    declared type ["application/pdf"]. *)
Theorem selected_file_is_pdf (evs : list Event) (f : File) :
  selectedFile (run evs init) = Some f -> type f = pdfType.
Proof.
  revert f.
  apply (run_invariant
           (fun st => forall f, selectedFile st = Some f -> type f = pdfType)).
  - intros st e I. now apply selected_pdf_step.
  - discriminate.
Qed.

Lemma selected_file_is_pdf_witness : type pdf = pdfType.
Proof.
  apply (selected_file_is_pdf
           [FileChange (Some png); FileChange (Some pdf); Convert]).
  reflexivity.
Defined.

Lemma audioPaired_step (st : State) (e : Event) :
  audioPaired st -> audioPaired (step st e).
Proof.
  unfold audioPaired. intros I. destruct e as [[g|]| |o|]; simpl.
  - unfold handleFileChange. destruct (JS.eqb (type g) pdfType); exact I.
  - exact I.
  - unfold handleConvert. destruct (selectedFile st); exact I.
  - unfold resume. destruct (awaiting st); [exact I|].
    destruct o; simpl; [right; split; reflexivity | exact I].
  - left. split; reflexivity.
Qed.

(** X11: in every state the component can reach, either no audio reference is
    held and [isAudioReady] is false, or the reference is the demonstration
    address and [isAudioReady] is true; so the player is rendered exactly
    when a reference is held. *)
Theorem audio_reference_and_flag_agree (evs : list Event) :
  audioPaired (run evs init)
  /\ (playerShown (run evs init) = true <-> audioUrl (run evs init) <> None).
Proof.
  assert (I : audioPaired (run evs init)).
  { apply (run_invariant audioPaired).
    - intros st e. apply audioPaired_step.
    - left. split; reflexivity. }
  split; [exact I|]. unfold playerShown.
  destruct I as [[Ha Hr]|[Ha Hr]]; rewrite Ha, Hr; simpl.
  - split; [discriminate | congruence].
  - split; [discriminate | reflexivity].
Qed.

Lemma audio_reference_and_flag_agree_witness :
  playerShown (run secondConversion init) = true.
Proof.
  apply (proj2 (proj2 (audio_reference_and_flag_agree secondConversion))).
  vm_compute. discriminate.
Defined.

Lemma statusPaired_step (st : State) (e : Event) :
  statusPaired st -> statusPaired (step st e).
Proof.
  unfold statusPaired. intros I. destruct e as [[g|]| |o|]; simpl.
  - unfold handleFileChange. destruct (JS.eqb (type g) pdfType); simpl.
    + right. left. split; [exists (name g)|]; reflexivity.
    + right. right. left. split; reflexivity.
  - left. split; reflexivity.
  - unfold handleConvert. destruct (selectedFile st); simpl.
    + do 4 right. left. split; reflexivity.
    + do 3 right. left. split; reflexivity.
  - unfold resume. destruct (awaiting st); [exact I|]. destruct o; simpl.
    + do 5 right. left. split; reflexivity.
    + do 6 right. split; reflexivity.
  - left. split; reflexivity.
Qed.

(** X12: in every state the component can reach, the status text is shown
    under the variant that belongs to it: the waiting text under [info], a
    selected file and a completed conversion under [success], the two
    requests for a file under [warning], the progress text under [primary]
    and the failure text under [danger]. *)
Theorem status_text_matches_variant (evs : list Event) :
  statusPaired (run evs init).
Proof.
  apply (run_invariant statusPaired).
  - intros st e. apply statusPaired_step.
  - left. split; reflexivity.
Qed.

Lemma converting_awaits_step (st : State) (e : Event) :
  (isConverting st = true -> 1 <= awaiting st) ->
  isConverting (step st e) = true -> 1 <= awaiting (step st e).
Proof.
  intros I. destruct e as [[g|]| |o|]; simpl.
  - unfold handleFileChange. destruct (JS.eqb (type g) pdfType); exact I.
  - exact I.
  - unfold handleConvert. destruct (selectedFile st); simpl; [lia | exact I].
  - unfold resume. destruct (awaiting st) eqn:A; simpl.
    + rewrite A. exact I.
    + destruct o; simpl; discriminate.
  - discriminate.
Qed.

(** X13: in every state the component can reach, even when the handlers are
    called past the disabled controls, [isConverting] is true only while a
    provider call is awaited, so the progress indication ends when the calls
    settle. *)
Theorem converting_has_a_pending_call (evs : list Event) :
  isConverting (run evs init) = true -> 1 <= awaiting (run evs init).
Proof.
  apply (run_invariant
           (fun st => isConverting st = true -> 1 <= awaiting st)).
  - intros st e. apply converting_awaits_step.
  - discriminate.
Qed.

Lemma converting_has_a_pending_call_witness :
  1 <= awaiting (run secondConversion init).
Proof.
  apply (converting_has_a_pending_call secondConversion). reflexivity.
Defined.

End ConverterInvariants.

Section ConverterFlow.

Import Converter.

Lemma gatedInvariant_uiStep (st : State) (e : Event) :
  gatedInvariant st -> gatedInvariant (uiStep st e).
Proof.
  unfold gatedInvariant, uiStep.
  destruct st as [sel status conv var url rdy inp aw]. simpl.
  intros I. pose proof I as [Hle [Hiff Hconv]].
  destruct e as [[g|]| |o|]; simpl.
  - destruct conv; simpl; [exact I|].
    unfold handleFileChange. simpl.
    destruct (JS.eqb (type g) pdfType); simpl;
      (split; [exact Hle | split; [exact Hiff | discriminate]]).
  - destruct conv; simpl; [exact I|].
    split; [exact Hle | split; [exact Hiff | discriminate]].
  - unfold convertDisabled. simpl. destruct sel as [f|]; simpl; [|exact I].
    destruct conv; simpl; [exact I|].
    assert (A : aw = 0).
    { destruct aw as [|[|n]]; [reflexivity | | lia].
      destruct Hiff as [_ H]. discriminate (H eq_refl). }
    subst aw. unfold handleConvert. simpl.
    repeat split; auto; discriminate.
  - unfold resume. simpl. destruct aw as [|k]; [exact I|].
    assert (k = 0) by lia. subst k.
    destruct o; simpl; repeat split; try discriminate; lia.
  - destruct conv; simpl; [exact I|].
    repeat split; try discriminate; try lia.
Qed.

(** X14: when the component is driven through its rendered controls, which
    are disabled while a conversion runs, at most one provider call is
    awaited at any time, [isConverting] is true exactly while one is
    awaited, and during that time the file that is being converted stays
    selected and the status shows the progress text. *)
Theorem one_conversion_at_a_time (evs : list Event) :
  awaiting (uiRun evs init) <= 1
  /\ (isConverting (uiRun evs init) = true <-> awaiting (uiRun evs init) = 1)
  /\ (isConverting (uiRun evs init) = true ->
      selectedFile (uiRun evs init) <> None
      /\ conversionStatus (uiRun evs init) = convertingMsg
      /\ statusVariant (uiRun evs init) = primary).
Proof.
  apply (uiRun_invariant gatedInvariant).
  - intros st e. apply gatedInvariant_uiStep.
  - unfold gatedInvariant. simpl. repeat split; try discriminate; lia.
Qed.

Lemma one_conversion_at_a_time_witness :
  awaiting (uiRun [FileChange (Some pdf); Convert; Convert; Cancel] init) = 1
  /\ (selectedFile
        (uiRun [FileChange (Some pdf); Convert; Convert; Cancel] init)
        <> None
      /\ conversionStatus
           (uiRun [FileChange (Some pdf); Convert; Convert; Cancel] init)
           = convertingMsg
      /\ statusVariant
           (uiRun [FileChange (Some pdf); Convert; Convert; Cancel] init)
           = primary).
Proof.
  split.
  - apply (proj1 (proj1 (proj2
             (one_conversion_at_a_time
                [FileChange (Some pdf); Convert; Convert; Cancel])))).
    reflexivity.
  - apply (proj2 (proj2
             (one_conversion_at_a_time
                [FileChange (Some pdf); Convert; Convert; Cancel]))).
    reflexivity.
Defined.

(** X15: from any state, selecting a file of type ["application/pdf"] and
    converting it puts the job in the converting state with the Convert
    button disabled, and when the provider call resolves the job is ready:
    the completion text is shown under [success], the demonstration address
    is held and its player rendered, the file is still selected, and
    [isConverting] is false again. *)
Theorem conversion_of_a_pdf_succeeds (f : File) (st : State) :
  type f = pdfType ->
  jobStatus (run [FileChange (Some f); Convert] st) = converting
  /\ convertDisabled (run [FileChange (Some f); Convert] st) = true
  /\ awaiting (run [FileChange (Some f); Convert] st) = S (awaiting st)
  /\ run [FileChange (Some f); Convert; Settle Resolved] st
     = mkState (Some f) completeMsg false success (Some demoAudioUrl) true
               (fileInput st) (awaiting st)
  /\ jobStatus (run [FileChange (Some f); Convert; Settle Resolved] st)
     = ready
  /\ playerShown (run [FileChange (Some f); Convert; Settle Resolved] st)
     = true.
Proof.
  intros H. apply eqb_eq in H. simpl. unfold handleFileChange. rewrite H.
  unfold handleConvert. simpl. repeat split.
Qed.

Lemma conversion_of_a_pdf_succeeds_witness :
  jobStatus (run [FileChange (Some pdf); Convert] init) = converting
  /\ convertDisabled (run [FileChange (Some pdf); Convert] init) = true
  /\ awaiting (run [FileChange (Some pdf); Convert] init) = S (awaiting init)
  /\ run [FileChange (Some pdf); Convert; Settle Resolved] init
     = mkState (Some pdf) completeMsg false success (Some demoAudioUrl) true
               (fileInput init) (awaiting init)
  /\ jobStatus (run [FileChange (Some pdf); Convert; Settle Resolved] init)
     = ready
  /\ playerShown (run [FileChange (Some pdf); Convert; Settle Resolved] init)
     = true.
Proof.
  apply (conversion_of_a_pdf_succeeds pdf init). reflexivity.
Defined.

(** X16: when the provider call of a conversion is rejected, the job is
    failed: the failure text is shown under [danger], the audio reference and
    its flag are as they were before the conversion, and the file is still
    selected with the Convert button enabled, so that converting again and a
    call that resolves make the job ready. *)
Theorem failed_conversion_can_be_retried (f : File) (st : State) :
  type f = pdfType ->
  jobStatus (run [FileChange (Some f); Convert; Settle Rejected] st) = failed
  /\ errorDetail (run [FileChange (Some f); Convert; Settle Rejected] st)
     = Some failedMsg
  /\ audioUrl (run [FileChange (Some f); Convert; Settle Rejected] st)
     = audioUrl st
  /\ isAudioReady (run [FileChange (Some f); Convert; Settle Rejected] st)
     = isAudioReady st
  /\ selectedFile (run [FileChange (Some f); Convert; Settle Rejected] st)
     = Some f
  /\ convertDisabled (run [FileChange (Some f); Convert; Settle Rejected] st)
     = false
  /\ run [FileChange (Some f); Convert; Settle Rejected;
          Convert; Settle Resolved] st
     = run [FileChange (Some f); Convert; Settle Resolved] st.
Proof.
  intros H. apply eqb_eq in H. simpl. unfold handleFileChange. rewrite H.
  unfold handleConvert. simpl. repeat split.
Qed.

Lemma failed_conversion_can_be_retried_witness :
  jobStatus (run [FileChange (Some pdf); Convert; Settle Rejected] init)
    = failed
  /\ errorDetail (run [FileChange (Some pdf); Convert; Settle Rejected] init)
     = Some failedMsg
  /\ audioUrl (run [FileChange (Some pdf); Convert; Settle Rejected] init)
     = audioUrl init
  /\ isAudioReady (run [FileChange (Some pdf); Convert; Settle Rejected] init)
     = isAudioReady init
  /\ selectedFile (run [FileChange (Some pdf); Convert; Settle Rejected] init)
     = Some pdf
  /\ convertDisabled
       (run [FileChange (Some pdf); Convert; Settle Rejected] init)
     = false
  /\ run [FileChange (Some pdf); Convert; Settle Rejected;
          Convert; Settle Resolved] init
     = run [FileChange (Some pdf); Convert; Settle Resolved] init.
Proof.
  apply (failed_conversion_can_be_retried pdf init). reflexivity.
Defined.

(** X17: [handleConvert] itself tests the selected file only: it issues a
    provider call exactly when a file is selected, also while an earlier call
    is awaited.  The guard against a second call is the Convert button, which
    is disabled once a conversion has started. *)
Theorem convert_handler_tests_the_file_only (st : State) :
  (awaiting (handleConvert st) = S (awaiting st) <-> selectedFile st <> None)
  /\ (selectedFile st = None -> awaiting (handleConvert st) = awaiting st)
  /\ (selectedFile st <> None ->
      isConverting (handleConvert st) = true
      /\ convertDisabled (handleConvert st) = true).
Proof.
  unfold handleConvert, convertDisabled.
  destruct (selectedFile st) as [f|]; simpl; repeat split;
    try congruence; try discriminate; try lia.
Qed.

Lemma convert_handler_tests_the_file_only_witness :
  awaiting (handleConvert (run secondConversion init))
    = S (awaiting (run secondConversion init))
  /\ awaiting (handleConvert init) = awaiting init
  /\ (isConverting (handleConvert (run secondConversion init)) = true
      /\ convertDisabled (handleConvert (run secondConversion init)) = true).
Proof.
  split; [|split].
  - apply (proj2 (proj1 (convert_handler_tests_the_file_only
                           (run secondConversion init)))).
    vm_compute. discriminate.
  - apply (proj1 (proj2 (convert_handler_tests_the_file_only init))).
    reflexivity.
  - apply (proj2 (proj2 (convert_handler_tests_the_file_only
                           (run secondConversion init)))).
    vm_compute. discriminate.
Defined.

(** X18: through the rendered controls a cancellation is final.  The Cancel
    button is enabled only while no conversion runs, no provider call is
    awaited then, and so after the cancellation no result can arrive to
    bring an audio reference or a status back. *)
Theorem cancel_through_the_button_is_final (evs : list Event) (o : Outcome) :
  enabled (uiRun evs init) Cancel = true ->
  awaiting (uiRun evs init) = 0
  /\ resume o (handleCancel (uiRun evs init)) = handleCancel (uiRun evs init).
Proof.
  intros H.
  assert (G : gatedInvariant (uiRun evs init)).
  { apply (uiRun_invariant gatedInvariant).
    - intros st e. apply gatedInvariant_uiStep.
    - unfold gatedInvariant. simpl. repeat split; try discriminate; lia. }
  destruct G as [Hle [Hiff _]]. simpl in H.
  assert (A : awaiting (uiRun evs init) = 0).
  { destruct (awaiting (uiRun evs init)) as [|[|n]]; auto; [|lia].
    destruct Hiff as [_ Hc]. rewrite (Hc eq_refl) in H. discriminate. }
  split; [exact A|]. unfold resume, handleCancel. simpl. now rewrite A.
Qed.

Lemma cancel_through_the_button_is_final_witness :
  awaiting
    (uiRun [FileChange (Some pdf); Convert; Settle Resolved] init) = 0
  /\ resume Resolved
       (handleCancel
          (uiRun [FileChange (Some pdf); Convert; Settle Resolved] init))
     = handleCancel
         (uiRun [FileChange (Some pdf); Convert; Settle Resolved] init).
Proof.
  apply (cancel_through_the_button_is_final
           [FileChange (Some pdf); Convert; Settle Resolved] Resolved).
  reflexivity.
Defined.

End ConverterFlow.

(** * One submission, run to its end *)

Section ChatSubmission.

Import Chat.

Lemma run_expire_upto (n : nat) (st : State) :
  n <= length (timers st) ->
  run (repeat Expire n) st
    = mkState (message st)
        (messages st ++ map botResponse (firstn n (timers st)))
        (skipn n (timers st)).
Proof.
  revert st. induction n as [|n IH]; intros [msg ms ts] H; simpl in *.
  - now rewrite app_nil_r.
  - destruct ts as [|t rest]; simpl in H; [lia|].
    unfold run in IH. unfold timeout at 1. simpl.
    rewrite IH by (simpl; lia). simpl. now rewrite <- app_assoc.
Qed.

Lemma firstn_length_app (A : Type) (l1 l2 : list A) :
  firstn (length l1) (l1 ++ l2) = l1.
Proof.
  rewrite firstn_app, Nat.sub_diag, firstn_all. simpl. apply app_nil_r.
Qed.

(** C5, as the spec words it, fails on two counts.  When a message is sent
    while the reply to an earlier one is pending, the transcript between the
    submission and its completion does not grow by a user entry followed by
    an assistant entry: the earlier reply comes in between.  And no
    submission, in any state, registers a reply with a text other than the
    demonstration reply: there is no failure outcome and no fallback text. *)
Lemma submit_two_adjacent_or_fallback_refuted :
  trim (message replyPending) <> []
  /\ ~ (exists u b,
          messages (expireAll (handleSendMessage replyPending))
            = messages replyPending ++ [u; b])
  /\ map sender (messages (expireAll (handleSendMessage replyPending)))
     = map sender (messages replyPending) ++ [user; bot; bot]
  /\ ~ (exists (st : State) (t : Timer),
          In t (registered st) /\ text (botResponse t) <> demoResponse).
Proof.
  split; [|split; [|split]].
  - vm_compute. discriminate.
  - intros [u [b H]]. apply (f_equal (@length Message)) in H.
    vm_compute in H. discriminate.
  - reflexivity.
  - intros [st [t [Hin N]]]. apply registered_cases in Hin. subst t.
    now apply N.
Qed.

(** C5 (amended): in every state, a submission of an input that is non-empty
    after trimming contributes exactly two entries to the transcript: a
    user-origin entry with the text as typed, appended at once, and one
    assistant-origin entry with the demonstration reply, appended when the
    timer of the submission expires, that is after the replies that were
    pending before it.  Until that timer expires only the user entry has
    been added; once it has expired nothing is pending, and the transcript
    has two entries more than it would have had without the submission.
    When nothing was pending the two entries are adjacent.  The timer cannot
    fail, and the reply is always the demonstration reply. *)
Theorem completed_submit_contributes_two :
  (forall st : State,
     trim (message st) <> [] ->
     exists u b,
       sender u = user /\ text u = message st
       /\ sender b = bot /\ text b = demoResponse
       /\ messages (handleSendMessage st) = messages st ++ [u]
       /\ messages (run (repeat Expire (inFlight st)) (handleSendMessage st))
          = messages st ++ [u] ++ map botResponse (timers st)
       /\ messages (expireAll (handleSendMessage st))
          = messages st ++ [u] ++ map botResponse (timers st) ++ [b]
       /\ timers (expireAll (handleSendMessage st)) = []
       /\ length (messages (expireAll (handleSendMessage st)))
          = length (messages (expireAll st)) + 2)
  /\ (forall st : State,
        trim (message st) <> [] -> timers st = [] ->
        exists u b,
          sender u = user /\ text u = message st
          /\ sender b = bot /\ text b = demoResponse
          /\ messages (timeout (handleSendMessage st))
             = messages st ++ [u; b]
          /\ timers (timeout (handleSendMessage st)) = []).
Proof.
  split.
  - intros st H. rewrite (send_accepted st H).
    exists (mkMessage (length (messages st) + 1) (message st) user),
           (mkMessage (length (messages st) + 2) demoResponse bot).
    repeat split.
    + unfold inFlight. rewrite run_expire_upto
        by (simpl; rewrite length_app; lia).
      simpl. rewrite firstn_length_app. now rewrite <- app_assoc.
    + unfold expireAll, inFlight. simpl.
      rewrite run_expire by reflexivity. simpl.
      rewrite map_app. simpl. now rewrite <- app_assoc.
    + unfold expireAll, inFlight. simpl. now rewrite run_expire.
    + unfold expireAll, inFlight. simpl.
      rewrite !run_expire by reflexivity. simpl.
      rewrite !length_app, !length_map, !length_app. simpl. lia.
  - intros st H Ht. rewrite (send_accepted st H), Ht.
    unfold timeout. simpl. rewrite <- app_assoc. simpl.
    exists (mkMessage (length (messages st) + 1) (message st) user),
           (mkMessage (length (messages st) + 2) demoResponse bot).
    repeat split.
Qed.

Lemma completed_submit_contributes_two_witness :
  (exists u b,
     sender u = user /\ text u = message replyPending
     /\ sender b = bot /\ text b = demoResponse
     /\ messages (handleSendMessage replyPending)
        = messages replyPending ++ [u]
     /\ messages (run (repeat Expire (inFlight replyPending))
                      (handleSendMessage replyPending))
        = messages replyPending ++ [u]
            ++ map botResponse (timers replyPending)
     /\ messages (expireAll (handleSendMessage replyPending))
        = messages replyPending ++ [u]
            ++ map botResponse (timers replyPending) ++ [b]
     /\ timers (expireAll (handleSendMessage replyPending)) = []
     /\ length (messages (expireAll (handleSendMessage replyPending)))
        = length (messages (expireAll replyPending)) + 2)
  /\ (exists u b,
        sender u = user /\ text u = message paddedInput
        /\ sender b = bot /\ text b = demoResponse
        /\ messages (timeout (handleSendMessage paddedInput))
           = messages paddedInput ++ [u; b]
        /\ timers (timeout (handleSendMessage paddedInput)) = []).
Proof.
  split.
  - apply (proj1 completed_submit_contributes_two replyPending).
    vm_compute. discriminate.
  - apply (proj2 completed_submit_contributes_two paddedInput).
    + vm_compute. discriminate.
    + reflexivity.
Defined.

End ChatSubmission.
